(** * wombat-rules: dependency analysis and precondition check for JSONLogic rules

    A shallow embedding of [src/analyzer.ts] ([getRequiredKeys]),
    [src/validator.ts] ([canExecuteRule], [hasKey]) and the evaluation
    wrapper [evaluateRule], together with the properties the specification
    states about them.

    The TypeScript code works on untyped JavaScript values and guards every
    member access with [== null], [Array.isArray] and [typeof] tests.  The
    operators of the language that can throw are therefore modelled as
    fallible ([Completion]), and the absence of a throw is a theorem, not a
    convention of the model.  [traverse] recurses once per level of the
    rule, so a second model, [traverse_on_stack], counts the activations
    the call stack has room for and raises the RangeError of an exhausted
    stack. *)

From Stdlib Require Import List String Ascii Bool Arith QArith Lia.
From Stdlib Require Import DecimalString DecimalNat.
Import ListNotations.

Local Open Scope string_scope.
Local Open Scope list_scope.
Local Open Scope nat_scope.

(** ** JavaScript values *)

(** The values a caller can pass: what [JSON.parse] produces, and
    [undefined].  An object is the list of its own enumerable properties in
    the order [Object.values] enumerates them; an array is the list of its
    elements.  The numeric payload is never inspected by the code. *)
Unset Elimination Schemes.
Inductive Json : Type :=
| JUndefined
| JNull
| JBool (b : bool)
| JNum (n : Q)
| JStr (s : string)
| JArr (items : list Json)
| JObj (fields : list (string * Json)).
Set Elimination Schemes.

(** Values met while walking property chains: besides data, the built-in
    prototype objects and the built-in functions hanging off them. *)
Inductive Value : Type :=
| VJson (j : Json)
| VFunction
| VObjectPrototype
| VArrayPrototype.

(** Abrupt completions.  [RangeError] is what a call raises when the call
    stack is exhausted.  [OutsideModel] marks an operation applied to an
    operand for which this development gives no semantics (member access on
    a primitive other than null or undefined, [in] on a function). *)
Inductive Exn : Type :=
| TypeError
| RangeError
| OutsideModel.

Inductive Completion (A : Type) : Type :=
| Normal (a : A)
| Throw (e : Exn).

Arguments Normal {A} a.
Arguments Throw {A} e.

Definition bind {A B : Type} (c : Completion A) (k : A -> Completion B) : Completion B :=
  match c with
  | Normal a => k a
  | Throw e => Throw e
  end.

Notation "x <- c ;; k" := (bind c (fun x => k))
  (at level 61, c at next level, right associativity).

Module JS.

(** [v == null] *)
Definition loose_eq_null (v : Value) : bool :=
  match v with
  | VJson JUndefined | VJson JNull => true
  | _ => false
  end.

(** [typeof v] *)
Definition typeof (v : Value) : string :=
  match v with
  | VJson JUndefined => "undefined"
  | VJson JNull => "object"
  | VJson (JBool _) => "boolean"
  | VJson (JNum _) => "number"
  | VJson (JStr _) => "string"
  | VJson (JArr _) => "object"
  | VJson (JObj _) => "object"
  | VFunction => "function"
  | VObjectPrototype => "object"
  | VArrayPrototype => "object"
  end.

(** [Array.isArray(v)]; [Array.prototype] is itself an array. *)
Definition Array_isArray (v : Value) : bool :=
  match v with
  | VJson (JArr _) | VArrayPrototype => true
  | _ => false
  end.

(** The own property [key] of a plain object. *)
Fixpoint lookup (key : string) (fields : list (string * Json)) : option Json :=
  match fields with
  | [] => None
  | (k, v) :: rest => if String.eqb k key then Some v else lookup key rest
  end.

(** The property name of array index [i]. *)
Definition index_name (i : nat) : string :=
  NilEmpty.string_of_uint (Nat.to_uint i).

(** The element of an array stored under the property name [key], the
    array starting at index [i]. *)
Fixpoint element (items : list Json) (i : nat) (key : string) : option Json :=
  match items with
  | [] => None
  | x :: rest => if String.eqb (index_name i) key then Some x else element rest (S i) key
  end.

(** String-named properties of [Object.prototype] (ECMA-262 20.1.3 and
    Annex B.2.2), [__proto__] apart: all of them built-in functions. *)
Definition object_prototype_methods : list string :=
  [ "constructor"; "hasOwnProperty"; "isPrototypeOf"; "propertyIsEnumerable";
    "toLocaleString"; "toString"; "valueOf";
    "__defineGetter__"; "__defineSetter__"; "__lookupGetter__"; "__lookupSetter__" ].

(** String-named function properties of [Array.prototype] (ECMA-262 23.1.3). *)
Definition array_prototype_methods : list string :=
  [ "constructor"; "at"; "concat"; "copyWithin"; "entries"; "every"; "fill";
    "filter"; "find"; "findIndex"; "findLast"; "findLastIndex"; "flat";
    "flatMap"; "forEach"; "includes"; "indexOf"; "join"; "keys";
    "lastIndexOf"; "map"; "pop"; "push"; "reduce"; "reduceRight"; "reverse";
    "shift"; "slice"; "some"; "sort"; "splice"; "toLocaleString";
    "toReversed"; "toSorted"; "toSpliced"; "toString"; "unshift"; "values";
    "with" ].

Definition mem (key : string) (names : list string) : bool :=
  existsb (String.eqb key) names.

Definition number_of_nat (n : nat) : Json := JNum (inject_Z (Z.of_nat n)).

(** Own data properties, enumerable or not, of an object-typed value. *)
Definition own_property (v : Value) (key : string) : option Value :=
  match v with
  | VJson (JObj fields) => option_map VJson (lookup key fields)
  | VJson (JArr items) =>
      if String.eqb key "length" then Some (VJson (number_of_nat (List.length items)))
      else option_map VJson (element items 0 key)
  | VObjectPrototype =>
      if mem key object_prototype_methods then Some VFunction else None
  | VArrayPrototype =>
      if String.eqb key "length" then Some (VJson (number_of_nat 0))
      else if mem key array_prototype_methods then Some VFunction
      else None
  | _ => None
  end.

(** The objects above [v] on its prototype chain, nearest first. *)
Definition prototype_chain (v : Value) : list Value :=
  match v with
  | VJson (JObj _) => [VObjectPrototype]
  | VJson (JArr _) => [VArrayPrototype; VObjectPrototype]
  | VArrayPrototype => [VObjectPrototype]
  | _ => []
  end.

(** What the accessor [__proto__] of [Object.prototype] returns when it
    is read on [v]. *)
Definition proto_value (v : Value) : Value :=
  match prototype_chain v with
  | p :: _ => p
  | [] => VJson JNull
  end.

Fixpoint first_owner (objects : list Value) (key : string) : option Value :=
  match objects with
  | [] => None
  | o :: rest =>
      match own_property o key with
      | Some x => Some x
      | None => first_owner rest key
      end
  end.

(** Property resolution for an object [v]: an own property first, then
    the prototype chain; [Object.prototype], where every chain ends,
    also carries the accessor [__proto__].  [None] when no object of the
    chain has the property. *)
Definition find_property (v : Value) (key : string) : option Value :=
  match first_owner (v :: prototype_chain v) key with
  | Some x => Some x
  | None => if String.eqb key "__proto__" then Some (proto_value v) else None
  end.

(** Is [v] an object in the sense of the language (not of [typeof])? *)
Definition is_object (v : Value) : bool :=
  match v with
  | VJson (JArr _) | VJson (JObj _) | VObjectPrototype | VArrayPrototype => true
  | _ => false
  end.

(** [key in v]: throws a TypeError on a primitive right operand. *)
Definition has_property (key : string) (v : Value) : Completion bool :=
  match v with
  | VFunction => Throw OutsideModel
  | _ =>
      if is_object v
      then Normal (match find_property v key with Some _ => true | None => false end)
      else Throw TypeError
  end.

(** [v[key]] and [v.key]: throws a TypeError on null and undefined. *)
Definition get (v : Value) (key : string) : Completion Value :=
  if loose_eq_null v then Throw TypeError
  else if is_object v then
    Normal (match find_property v key with
            | Some x => x
            | None => VJson JUndefined
            end)
  else Throw OutsideModel.

(** [s.split('.')] *)
Fixpoint split_dot (s : string) : list string :=
  match s with
  | EmptyString => [EmptyString]
  | String c rest =>
      if Ascii.eqb c "."%char then EmptyString :: split_dot rest
      else match split_dot rest with
           | [] => [String c EmptyString]
           | seg :: segs => String c seg :: segs
           end
  end.

(** [Set<string>]: insertion-ordered, as [Array.from] reads it back. *)
Definition StringSet : Type := list string.

Definition set_new : StringSet := [].

Definition set_has (s : StringSet) (k : string) : bool := mem k s.

Definition set_add (k : string) (s : StringSet) : StringSet :=
  if set_has s k then s else s ++ [k].

Definition Array_from (s : StringSet) : list string := s.

End JS.

Import JS.

(** ** src/analyzer.ts *)

(** Lines 64 to 73 of [traverse]: the test for a var reference on an object
    node [obj], with the key set threaded through. *)
Definition record_var (obj : Value) (keys : StringSet) : Completion StringSet :=
  has_var <- has_property "var" obj ;;
  if has_var then
    varValue <- get obj "var" ;;
    if String.eqb (typeof varValue) "string" then
      match varValue with
      | VJson (JStr s) => Normal (set_add s keys)
      | _ => Normal keys
      end
    else if Array_isArray varValue then
      first <- get varValue "0" ;;
      if String.eqb (typeof first) "string" then
        match first with
        | VJson (JStr s) => Normal (set_add s keys)
        | _ => Normal keys
        end
      else Normal keys
    else Normal keys
  else Normal keys.

(** [traverse] of [getRequiredKeys]; the closure variable [keys] is passed
    in and handed back. *)
Fixpoint traverse (node : Json) (keys : StringSet) {struct node} : Completion StringSet :=
  match node with
  | JUndefined | JNull =>
      (* if (node == null) return *)
      Normal keys
  | JArr items =>
      (* if (Array.isArray(node)) { for (const item of node) traverse(item); return } *)
      (fix each (items : list Json) (keys : StringSet) {struct items} : Completion StringSet :=
         match items with
         | [] => Normal keys
         | item :: rest => keys' <- traverse item keys ;; each rest keys'
         end) items keys
  | JObj fields =>
      (* if (typeof node === 'object') *)
      keys1 <- record_var (VJson node) keys ;;
      (* for (const value of Object.values(obj)) traverse(value) *)
      (fix values (fields : list (string * Json)) (keys : StringSet) {struct fields}
         : Completion StringSet :=
         match fields with
         | [] => Normal keys
         | (_, value) :: rest => keys' <- traverse value keys ;; values rest keys'
         end) fields keys1
  | JBool _ | JNum _ | JStr _ =>
      (* primitives fall through every test *)
      Normal keys
  end.

Definition getRequiredKeys (rule : Json) : Completion (list string) :=
  keys <- traverse rule set_new ;;
  Normal (Array_from keys).

(** ** src/validator.ts *)

(** The loop of [hasKey] over the remaining segments. *)
Fixpoint hasKey_loop (keys : list string) (current : Value) : Completion bool :=
  match keys with
  | [] => Normal true
  | key :: rest =>
      if loose_eq_null current then Normal false
      else if negb (String.eqb (typeof current) "object") then Normal false
      else
        present <- has_property key current ;;
        if negb present then Normal false
        else
          next <- get current key ;;
          hasKey_loop rest next
  end.

Definition hasKey (data : Json) (keyPath : string) : Completion bool :=
  hasKey_loop (split_dot keyPath) (VJson data).

(** The loop of [canExecuteRule] over the required keys. *)
Fixpoint canExecuteRule_loop (data : Json) (requiredKeys : list string) : Completion bool :=
  match requiredKeys with
  | [] => Normal true
  | key :: rest =>
      ok <- hasKey data key ;;
      if negb ok then Normal false
      else canExecuteRule_loop data rest
  end.

Definition canExecuteRule (rule data : Json) : Completion bool :=
  requiredKeys <- getRequiredKeys rule ;;
  if Nat.eqb (List.length requiredKeys) 0 then Normal true
  else canExecuteRule_loop data requiredKeys.


(** ** The call stack *)

(** [traverse] with the call stack made explicit: [frames] is the number
    of nested activations of [traverse] the stack has room for.  Every
    call, on a leaf as on a node, takes one; a call with none left raises
    RangeError (maximum call stack size exceeded), which no caller
    catches. *)
Fixpoint traverse_on_stack (frames : nat) (node : Json) (keys : StringSet) {struct node}
  : Completion StringSet :=
  match frames with
  | 0 => Throw RangeError
  | S frames' =>
      match node with
      | JUndefined | JNull => Normal keys
      | JArr items =>
          (fix each (items : list Json) (keys : StringSet) {struct items}
             : Completion StringSet :=
             match items with
             | [] => Normal keys
             | item :: rest =>
                 keys' <- traverse_on_stack frames' item keys ;; each rest keys'
             end) items keys
      | JObj fields =>
          keys1 <- record_var (VJson node) keys ;;
          (fix values (fields : list (string * Json)) (keys : StringSet) {struct fields}
             : Completion StringSet :=
             match fields with
             | [] => Normal keys
             | (_, value) :: rest =>
                 keys' <- traverse_on_stack frames' value keys ;; values rest keys'
             end) fields keys1
      | JBool _ | JNum _ | JStr _ => Normal keys
      end
  end.

(** [frames]: the room the stack has when [traverse(rule)] is called. *)
Definition getRequiredKeys_on_stack (frames : nat) (rule : Json) : Completion (list string) :=
  keys <- traverse_on_stack frames rule set_new ;;
  Normal (Array_from keys).

(** [hasKey] is a loop and calls nothing: where [traverse] had room to
    run, it has. *)
Definition canExecuteRule_on_stack (frames : nat) (rule data : Json) : Completion bool :=
  requiredKeys <- getRequiredKeys_on_stack frames rule ;;
  if Nat.eqb (List.length requiredKeys) 0 then Normal true
  else canExecuteRule_loop data requiredKeys.

(** The nesting depth of a value, a leaf counting one: the number of
    activations of [traverse] that are live at the deepest point of its
    traversal. *)
Fixpoint depth (node : Json) : nat :=
  match node with
  | JArr items => S (list_max (map depth items))
  | JObj fields => S (list_max (map (fun kv => depth (snd kv)) fields))
  | _ => 1
  end.

(** [[[ ... rule ... ]]]: [rule] inside [n] one-element arrays. *)
Fixpoint nest (n : nat) (rule : Json) : Json :=
  match n with
  | 0 => rule
  | S n' => JArr [nest n' rule]
  end.

(** ** The evaluation wrapper *)

(** What a [throw] of the engine carries: an instance of [Error] with its
    [message], or some other value. *)
Inductive Thrown : Type :=
| ErrorInstance (message : string)
| NonError (v : Json).

Inductive Outcome : Type :=
| Returned (v : Json)
| Raised (t : Thrown).

(** [data ?? {}] *)
Definition nullish_coalesce (data fallback : Json) : Json :=
  match data with
  | JUndefined | JNull => fallback
  | _ => data
  end.

Section Evaluator.

(** [jsonLogic.apply] of the json-logic-js package. *)
Variable jsonLogic_apply : Json -> Json -> Outcome.

(** An omitted [data] argument is [JUndefined]. *)
Definition evaluateRule (rule data : Json) : Outcome :=
  match jsonLogic_apply rule (nullish_coalesce data (JObj [])) with
  | Returned v => Returned v
  | Raised (ErrorInstance message) =>
      Raised (ErrorInstance ("Failed to evaluate rule: " ++ message))
  | Raised (NonError _) =>
      Raised (ErrorInstance "Failed to evaluate rule: Unknown error")
  end.

End Evaluator.

(** The message of a failure, when it has one. *)
Definition failure_message (t : Thrown) : option string :=
  match t with
  | ErrorInstance message => Some message
  | NonError _ => None
  end.

(** ** The specification's notions *)

(** The path a node with the properties [fields] records for its [var]
    property (section 4.2, step 3a). *)
Definition var_path (fields : list (string * Json)) : list string :=
  match lookup "var" fields with
  | Some (JStr path) => [path]
  | Some (JArr (JStr path :: _)) => [path]
  | _ => []
  end.

(** The recorded paths of a rule in pre-order: a node before its children,
    the children left to right. *)
Fixpoint recorded (node : Json) : list string :=
  match node with
  | JArr items => flat_map recorded items
  | JObj fields => var_path fields ++ flat_map (fun kv => recorded (snd kv)) fields
  | _ => []
  end.

(** Deduplication by first occurrence: the head, then the rest without
    the head. *)
Fixpoint dedup (l : list string) : list string :=
  match l with
  | [] => []
  | x :: rest => x :: filter (fun y => negb (String.eqb y x)) (dedup rest)
  end.

(** The position of the first occurrence of [p] in [l] ([length l] when
    there is none). *)
Fixpoint first_index (p : string) (l : list string) : nat :=
  match l with
  | [] => 0
  | x :: rest => if String.eqb x p then 0 else S (first_index p rest)
  end.

(** [node] is an element of the array, or a property value of the object,
    [parent]. *)
Inductive child : Json -> Json -> Prop :=
| child_item : forall items node, In node items -> child node (JArr items)
| child_value : forall fields key node, In (key, node) fields -> child node (JObj fields).

(** The nodes of a rule: the rule and, recursively, the children of its
    nodes. *)
Inductive node_of (rule : Json) : Json -> Prop :=
| node_root : node_of rule rule
| node_child : forall parent node, node_of rule parent -> child node parent -> node_of rule node.

(** The path [segments] leads somewhere from [v]: each segment names a
    property (own or inherited) of the object reached so far. *)
Inductive resolves : Value -> list string -> Prop :=
| resolves_end : forall v, resolves v []
| resolves_step : forall v segment rest next,
    is_object v = true ->
    find_property v segment = Some next ->
    resolves next rest ->
    resolves v (segment :: rest).

(** The same with own properties only. *)
Inductive resolves_own : Value -> list string -> Prop :=
| resolves_own_end : forall v, resolves_own v []
| resolves_own_step : forall v segment rest next,
    is_object v = true ->
    own_property v segment = Some next ->
    resolves_own next rest ->
    resolves_own v (segment :: rest).

(** ** Sample rules and data *)

(** [{">": [{"var": "age"}, 18]}] *)
Definition age_rule : Json :=
  JObj [(">", JArr [JObj [("var", JStr "age")]; JNum 18])].

(** [{"var": ["a", {"var": "b"}]}]: a default that is itself a var node. *)
Definition default_rule : Json :=
  JObj [("var", JArr [JStr "a"; JObj [("var", JStr "b")]])].

(** [{"var": "a", "else": {"var": "b"}}]: var is not the only key. *)
Definition mixed_node : Json :=
  JObj [("var", JStr "a"); ("else", JObj [("var", JStr "b")])].

(** [{"var": ""}]: the JSONLogic reference to the whole data context. *)
Definition whole_context_rule : Json :=
  JObj [("var", JStr "")].

(** [{"name": "Alice"}] *)
Definition alice : Json :=
  JObj [("name", JStr "Alice")].

(** An engine that rejects every rule the way json-logic-js rejects an
    operator it does not know. *)
Definition rejecting_engine (rule data : Json) : Outcome :=
  Raised (ErrorInstance "Unrecognized operation foo").

(** ** Notions for the further properties *)

(** The keys [getRequiredKeys] returns. *)
Definition required (rule : Json) : list string :=
  match getRequiredKeys rule with
  | Normal keys => keys
  | Throw _ => []
  end.

(** The property names the built-in prototypes answer to. *)
Definition builtin_names : list string :=
  "__proto__" :: object_prototype_methods ++ array_prototype_methods.

Fixpoint dot_free (s : string) : bool :=
  match s with
  | EmptyString => true
  | String c rest => negb (Ascii.eqb c ".") && dot_free rest
  end.

(** [segments.join('.')] *)
Definition join_dots (segments : list string) : string :=
  String.concat "." segments.

Definition is_digit (c : ascii) : bool :=
  existsb (Ascii.eqb c) ["0"; "1"; "2"; "3"; "4"; "5"; "6"; "7"; "8"; "9"]%char.

Fixpoint all_digits (s : string) : bool :=
  match s with
  | EmptyString => true
  | String c rest => is_digit c && all_digits rest
  end.

(** [{"user": null}] *)
Definition null_user : Json :=
  JObj [("user", JNull)].

(** [{"user": {"name": "Alice"}}] *)
Definition named_user : Json :=
  JObj [("user", JObj [("name", JStr "Alice")])].

(** [{"==": [{"var": "user.name"}, "Alice"]}] *)
Definition name_rule : Json :=
  JObj [("==", JArr [JObj [("var", JStr "user.name")]; JStr "Alice"])].

(** An engine that hands back the data it is given. *)
Definition echo_engine (rule data : Json) : Outcome :=
  Returned data.

(** The key set after [keys.add] of each path of [paths], in order. *)
Definition add_all (paths : list string) (keys : StringSet) : StringSet :=
  fold_left (fun s p => set_add p s) paths keys.

(** ** Induction over values *)

(** Structural induction with the hypothesis available for every element
    of an array and every property value of an object. *)
Definition Json_ind (P : Json -> Prop)
  (Hundefined : P JUndefined)
  (Hnull : P JNull)
  (Hbool : forall b, P (JBool b))
  (Hnum : forall n, P (JNum n))
  (Hstr : forall s, P (JStr s))
  (Harr : forall items, Forall P items -> P (JArr items))
  (Hobj : forall fields, Forall (fun kv => P (snd kv)) fields -> P (JObj fields))
  : forall j, P j :=
  fix go (j : Json) : P j :=
    match j with
    | JUndefined => Hundefined
    | JNull => Hnull
    | JBool b => Hbool b
    | JNum n => Hnum n
    | JStr s => Hstr s
    | JArr items =>
        Harr items
          ((fix all (l : list Json) : Forall P l :=
              match l with
              | [] => Forall_nil P
              | x :: rest => Forall_cons x (go x) (all rest)
              end) items)
    | JObj fields =>
        Hobj fields
          ((fix all (l : list (string * Json)) : Forall (fun kv => P (snd kv)) l :=
              match l with
              | [] => Forall_nil _
              | kv :: rest => Forall_cons kv (go (snd kv)) (all rest)
              end) fields)
    end.

(** * Properties *)

(** ** The language operators on the operands the code applies them to *)

Lemma has_property_var_object (fields : list (string * Json)) :
  has_property "var" (VJson (JObj fields)) =
  Normal (match lookup "var" fields with Some _ => true | None => false end).
Proof.
  unfold has_property, find_property; simpl.
  destruct (lookup "var" fields); reflexivity.
Qed.

Lemma get_var_object (fields : list (string * Json)) (v : Json) :
  lookup "var" fields = Some v ->
  get (VJson (JObj fields)) "var" = Normal (VJson v).
Proof.
  intros H. unfold get, find_property; simpl. rewrite H. reflexivity.
Qed.

Lemma get_first_element (items : list Json) :
  get (VJson (JArr items)) "0" = Normal (VJson (hd JUndefined items)).
Proof.
  destruct items; reflexivity.
Qed.

(** On an object-typed, non-null operand neither [in] nor member access
    throws. *)
Lemma object_operand_safe (v : Value) (key : string) :
  loose_eq_null v = false ->
  String.eqb (typeof v) "object" = true ->
  has_property key v = Normal (match find_property v key with Some _ => true | None => false end) /\
  get v key = Normal (match find_property v key with Some x => x | None => VJson JUndefined end) /\
  is_object v = true.
Proof.
  destruct v as [[ | | b | n | s | items | fields] | | | ]; simpl;
    intros Hnull Htype; try discriminate; repeat split; reflexivity.
Qed.

(** The three tests of [traverse], in the order the code makes them,
    select the cases its model matches on. *)
Lemma traverse_tests (node : Json) :
  (loose_eq_null (VJson node) = true <-> node = JUndefined \/ node = JNull) /\
  (loose_eq_null (VJson node) = false /\ Array_isArray (VJson node) = true <->
   exists items, node = JArr items) /\
  (loose_eq_null (VJson node) = false /\ Array_isArray (VJson node) = false /\
   String.eqb (typeof (VJson node)) "object" = true <->
   exists fields, node = JObj fields).
Proof.
  destruct node as [ | | b | n | s | items | fields]; cbn;
    (split; [|split]); split;
    try (intros [H | H]; discriminate);
    try (intros (H1 & H2 & H3); discriminate);
    try (intros [H1 H2]; discriminate);
    try (intros [x H]; discriminate);
    try discriminate; intros; eauto.
Qed.

(** ** The var test *)

Lemma record_var_spec (fields : list (string * Json)) (keys : StringSet) :
  record_var (VJson (JObj fields)) keys = Normal (add_all (var_path fields) keys).
Proof.
  unfold record_var, var_path.
  rewrite has_property_var_object.
  destruct (lookup "var" fields) as [v|] eqn:Hv; cbn [bind]; [|reflexivity].
  rewrite (get_var_object _ _ Hv); cbn [bind].
  destruct v as [ | | b | n | s | items | fs]; try reflexivity.
  cbn [typeof String.eqb Ascii.eqb Bool.eqb Array_isArray].
  rewrite get_first_element; cbn [bind].
  destruct items as [|[ | | b | n | s | items' | fs] rest]; reflexivity.
Qed.

(** ** The key set *)

Lemma mem_In (k : string) (l : list string) : mem k l = true <-> In k l.
Proof.
  unfold mem. rewrite existsb_exists. split.
  - intros [x [Hin Heq]]. apply String.eqb_eq in Heq. now subst.
  - intros Hin. exists k. split; [assumption | apply String.eqb_refl].
Qed.

Lemma mem_false (k : string) (l : list string) : mem k l = false <-> ~ In k l.
Proof.
  rewrite <- mem_In. destruct (mem k l); split; congruence.
Qed.

Lemma add_all_app (l1 l2 : list string) (keys : StringSet) :
  add_all (l1 ++ l2) keys = add_all l2 (add_all l1 keys).
Proof. apply fold_left_app. Qed.

Lemma filter_twice (f g : string -> bool) (l : list string) :
  filter f (filter g l) = filter (fun x => g x && f x) l.
Proof.
  induction l as [|a l IH]; simpl; [reflexivity|].
  destruct (g a); simpl; [destruct (f a)|]; now rewrite IH.
Qed.

(** Adding paths one by one keeps the present keys in place and appends
    the first occurrences of the new ones. *)
Lemma add_all_dedup (l : list string) (keys : StringSet) :
  add_all l keys = keys ++ filter (fun p => negb (mem p keys)) (dedup l).
Proof.
  revert keys. induction l as [|x rest IH]; intros keys; simpl.
  - now rewrite app_nil_r.
  - unfold add_all in *; simpl. rewrite IH. unfold set_add, set_has.
    destruct (mem x keys) eqn:Hx; simpl.
    + f_equal. rewrite filter_twice. apply filter_ext_in. intros a _.
      destruct (String.eqb a x) eqn:Hax; simpl; [|reflexivity].
      apply String.eqb_eq in Hax. subst a. now rewrite Hx.
    + rewrite <- app_assoc. simpl. do 2 f_equal. rewrite filter_twice.
      apply filter_ext. intros a. unfold mem. rewrite existsb_app. simpl.
      rewrite orb_false_r, negb_orb. apply andb_comm.
Qed.

Lemma dedup_In (l : list string) (p : string) : In p (dedup l) <-> In p l.
Proof.
  induction l as [|x rest IH]; simpl; [tauto|].
  rewrite filter_In, IH, negb_true_iff, String.eqb_neq.
  destruct (string_dec x p); [subst|]; intuition congruence.
Qed.

Lemma dedup_NoDup (l : list string) : NoDup (dedup l).
Proof.
  induction l as [|x rest IH]; simpl; constructor.
  - rewrite filter_In, String.eqb_refl. intros [_ H]. discriminate.
  - now apply NoDup_filter.
Qed.

Lemma first_index_filter (f : string -> bool) (p q : string) (l : list string) :
  f p = true -> f q = true ->
  (first_index p (filter f l) < first_index q (filter f l) <->
   first_index p l < first_index q l).
Proof.
  intros Hp Hq. induction l as [|a l IH]; simpl; [tauto|].
  destruct (f a) eqn:Hfa; simpl.
  - destruct (String.eqb a p), (String.eqb a q); try lia.
  - assert (Hap : String.eqb a p = false)
      by (apply String.eqb_neq; intros ->; congruence).
    assert (Haq : String.eqb a q = false)
      by (apply String.eqb_neq; intros ->; congruence).
    rewrite Hap, Haq. lia.
Qed.

(** Deduplication keeps the order of the first occurrences. *)
Lemma dedup_order (l : list string) (p q : string) :
  first_index p (dedup l) < first_index q (dedup l) <->
  first_index p l < first_index q l.
Proof.
  induction l as [|x rest IH]; simpl; [tauto|].
  destruct (String.eqb x p) eqn:Hp, (String.eqb x q) eqn:Hq; try lia.
  rewrite <- !Nat.succ_lt_mono, <- IH.
  apply first_index_filter; apply negb_true_iff; rewrite String.eqb_sym; assumption.
Qed.

(** ** The traversal *)

(** [traverse] adds the recorded paths of the node, in pre-order, to the
    key set, and does not throw. *)
Lemma traverse_spec (node : Json) :
  forall keys, traverse node keys = Normal (add_all (recorded node) keys).
Proof.
  induction node as [ | | b | n | s | items IH | fields IH] using Json_ind;
    intros keys; try reflexivity.
  - cbn [traverse recorded]. revert keys.
    induction IH as [|item rest Hitem _ IHrest]; intros keys; [reflexivity|].
    cbn [flat_map]. rewrite add_all_app, Hitem. cbn [bind]. apply IHrest.
  - cbn [traverse recorded]. rewrite record_var_spec, add_all_app. cbn [bind].
    generalize (add_all (var_path fields) keys). clear keys.
    induction IH as [|[key value] rest Hvalue _ IHrest]; intros keys; [reflexivity|].
    cbn [flat_map snd]. rewrite add_all_app. cbn [snd] in Hvalue. rewrite Hvalue.
    cbn [bind]. apply IHrest.
Qed.

Lemma getRequiredKeys_spec (rule : Json) :
  getRequiredKeys rule = Normal (dedup (recorded rule)).
Proof.
  unfold getRequiredKeys. rewrite traverse_spec. cbn [bind].
  rewrite add_all_dedup. unfold Array_from, set_new. cbn [app].
  f_equal. apply filter_true.
Qed.

Lemma lookup_In (key : string) (fields : list (string * Json)) (v : Json) :
  lookup key fields = Some v -> In (key, v) fields.
Proof.
  induction fields as [|[k w] rest IH]; simpl; [discriminate|].
  destruct (String.eqb k key) eqn:Hk.
  - apply String.eqb_eq in Hk. intros [= ->]. left. now subst.
  - intros H. right. now apply IH.
Qed.

Lemma recorded_child (node parent : Json) :
  child node parent -> incl (recorded node) (recorded parent).
Proof.
  intros [items x Hin | fields key x Hin] p Hp; simpl.
  - apply in_flat_map. now exists x.
  - apply in_or_app. right. apply in_flat_map. now exists (key, x).
Qed.

(** Every path recorded at a node of the rule is recorded for the rule. *)
Lemma recorded_node_of (rule node : Json) :
  node_of rule node -> incl (recorded node) (recorded rule).
Proof.
  induction 1 as [|parent node _ IH Hchild].
  - apply incl_refl.
  - eapply incl_tran; [apply recorded_child; eassumption | exact IH].
Qed.

Lemma var_path_recorded (fields : list (string * Json)) :
  incl (var_path fields) (recorded (JObj fields)).
Proof. intros p Hp. simpl. apply in_or_app. now left. Qed.

Lemma getRequiredKeys_In (rule : Json) (p : string) :
  In p (recorded rule) ->
  exists result, getRequiredKeys rule = Normal result /\ In p result.
Proof.
  intros Hp. exists (dedup (recorded rule)). split.
  - apply getRequiredKeys_spec.
  - now apply dedup_In.
Qed.

(** ** The existence check *)

Lemma is_object_guards (v : Value) :
  is_object v = true <->
  loose_eq_null v = false /\ String.eqb (typeof v) "object" = true.
Proof.
  destruct v as [[ | | b | n | s | items | fields] | | | ]; simpl;
    split; intros H; try destruct H; try discriminate; auto.
Qed.

(** A path with a segment left does not resolve from a value one of the
    guards of [hasKey] rejects. *)
Ltac stopped_by_guard :=
  let Hr := fresh "Hr" in
  intros Hr; inversion Hr; subst;
  match goal with
  | H : is_object _ = true |- _ => apply is_object_guards in H; destruct H; congruence
  end.

(** The loop of [hasKey] decides [resolves] and does not throw. *)
Lemma hasKey_loop_decides (keys : list string) :
  forall current,
    (resolves current keys /\ hasKey_loop keys current = Normal true) \/
    (~ resolves current keys /\ hasKey_loop keys current = Normal false).
Proof.
  induction keys as [|key rest IH]; intros current.
  - left. split; [constructor | reflexivity].
  - cbn [hasKey_loop].
    destruct (loose_eq_null current) eqn:Hnull.
    { right. split; [stopped_by_guard | reflexivity]. }
    destruct (String.eqb (typeof current) "object") eqn:Htype; cbn [negb].
    2:{ right. split; [stopped_by_guard | reflexivity]. }
    destruct (object_operand_safe current key Hnull Htype) as (Hin & Hget & Hobj).
    rewrite Hin. cbn [bind].
    destruct (find_property current key) as [next|] eqn:Hfind; cbn [negb].
    + rewrite Hget. cbn [bind].
      destruct (IH next) as [[Hr Hk] | [Hr Hk]].
      * left. split; [econstructor; eassumption | exact Hk].
      * right. split; [|exact Hk]. intros Hr'. inversion Hr'; subst.
        apply Hr. congruence.
    + right. split; [|reflexivity]. intros Hr. inversion Hr; subst. congruence.
Qed.

Lemma hasKey_total (data : Json) (path : string) :
  hasKey data path = Normal true \/ hasKey data path = Normal false.
Proof.
  unfold hasKey.
  destruct (hasKey_loop_decides (split_dot path) (VJson data)) as [[_ H] | [_ H]]; auto.
Qed.

Lemma canExecuteRule_loop_spec (data : Json) (keys : list string) :
  exists b,
    canExecuteRule_loop data keys = Normal b /\
    (b = true <-> forall p, In p keys -> hasKey data p = Normal true) /\
    (b = false <-> exists p, In p keys /\ hasKey data p = Normal false).
Proof.
  induction keys as [|key rest (b & Hloop & Htrue & Hfalse)].
  - exists true. cbn. repeat split; try tauto; try discriminate.
    intros (p & [] & _).
  - cbn [canExecuteRule_loop].
    destruct (hasKey_total data key) as [Hk | Hk]; rewrite Hk; cbn [bind negb].
    + exists b. split; [exact Hloop|]. split.
      * rewrite Htrue. split.
        -- intros H p [<- | Hin]; auto.
        -- intros H p Hin. apply H. now right.
      * rewrite Hfalse. split.
        -- intros (p & Hin & Hp). exists p. split; [now right | exact Hp].
        -- intros (p & [<- | Hin] & Hp); [congruence|]. now exists p.
    + exists false. split; [reflexivity|]. split.
      * split; [discriminate|]. intros H.
        specialize (H key (or_introl eq_refl)). congruence.
      * split; [|reflexivity]. intros _. exists key. split; [now left | exact Hk].
Qed.

Lemma canExecuteRule_unfold (rule data : Json) :
  canExecuteRule rule data = canExecuteRule_loop data (dedup (recorded rule)).
Proof.
  unfold canExecuteRule. rewrite getRequiredKeys_spec. cbn [bind].
  destruct (dedup (recorded rule)); reflexivity.
Qed.

(** ** The documented examples and the test suite *)

Example keys_of_two_variables :
  getRequiredKeys
    (JObj [("and", JArr [JObj [(">", JArr [JObj [("var", JStr "age")]; JNum 18])];
                         JObj [("==", JArr [JObj [("var", JStr "status")]; JStr "active"])]])])
  = Normal ["age"; "status"].
Proof. reflexivity. Qed.

Example keys_of_repeated_variable :
  getRequiredKeys
    (JObj [("and", JArr [JObj [(">", JArr [JObj [("var", JStr "age")]; JNum 18])];
                         JObj [("<", JArr [JObj [("var", JStr "age")]; JNum 65])]])])
  = Normal ["age"].
Proof. reflexivity. Qed.

Example keys_of_default_form :
  getRequiredKeys
    (JObj [("==", JArr [JObj [("var", JArr [JStr "status"; JStr "inactive"])]; JStr "active"])])
  = Normal ["status"].
Proof. reflexivity. Qed.

Example keys_of_numeric_var :
  getRequiredKeys (JObj [("var", JNum 1)]) = Normal [].
Proof. reflexivity. Qed.

Example keys_of_leaves :
  getRequiredKeys JNull = Normal [] /\
  getRequiredKeys JUndefined = Normal [] /\
  getRequiredKeys (JNum 42) = Normal [] /\
  getRequiredKeys (JStr "string") = Normal [] /\
  getRequiredKeys (JObj []) = Normal [].
Proof. repeat split. Qed.

Example keys_of_bare_array :
  getRequiredKeys (JArr [JObj [("var", JStr "a")]; JObj [("var", JStr "b")]])
  = Normal ["a"; "b"].
Proof. reflexivity. Qed.

Example missing_key_rejected :
  canExecuteRule age_rule alice = Normal false.
Proof. reflexivity. Qed.

Example nested_key_accepted :
  canExecuteRule
    (JObj [("==", JArr [JObj [("var", JStr "user.profile.role")]; JStr "admin"])])
    (JObj [("user", JObj [("profile", JObj [("role", JStr "admin")])])])
  = Normal true.
Proof. reflexivity. Qed.

Example null_intermediate_rejected :
  canExecuteRule
    (JObj [("==", JArr [JObj [("var", JStr "user.name")]; JStr "Alice"])])
    (JObj [("user", JNull)])
  = Normal false.
Proof. reflexivity. Qed.

Example undefined_value_accepted :
  canExecuteRule
    (JObj [("==", JArr [JObj [("var", JStr "value")]; JUndefined])])
    (JObj [("value", JUndefined)])
  = Normal true.
Proof. reflexivity. Qed.

Example static_rule_accepted :
  canExecuteRule (JObj [("==", JArr [JNum 1; JNum 1])]) JNull = Normal true /\
  canExecuteRule (JArr [JNum 1; JNum 2; JNum 3]) alice = Normal true.
Proof. split; reflexivity. Qed.

(** * The properties the specification states *)

(** C1.  For every rule, [getRequiredKeys] returns the var paths recorded
    during the pre-order, depth-first, left-to-right traversal of the rule
    ([recorded]), deduplicated by first occurrence: the result has no
    repetition, holds exactly the recorded paths, and lists them in the
    order of their first occurrences in the traversal. *)
Theorem getRequiredKeys_dedup_first_occurrence (rule : Json) :
  exists keys,
    getRequiredKeys rule = Normal keys /\
    keys = dedup (recorded rule) /\
    NoDup keys /\
    (forall p, In p keys <-> In p (recorded rule)) /\
    (forall p q,
        first_index p keys < first_index q keys <->
        first_index p (recorded rule) < first_index q (recorded rule)).
Proof.
  exists (dedup (recorded rule)). split; [apply getRequiredKeys_spec|].
  split; [reflexivity|]. split; [apply dedup_NoDup|].
  split; [intros p; apply dedup_In | intros p q; apply dedup_order].
Qed.

(** C2.  For every object node of a rule that has a property [var]: the
    var test adds the property's value to the key set when it is a string,
    adds the first element when the value is an array whose first element
    is a string, and leaves the key set as it is for any other value; a
    path recorded that way is in the result of [getRequiredKeys]. *)
Theorem var_property_recorded (rule : Json) (fields : list (string * Json)) (value : Json) :
  node_of rule (JObj fields) ->
  lookup "var" fields = Some value ->
  (forall keys,
      record_var (VJson (JObj fields)) keys =
      Normal (match value with
              | JStr path => set_add path keys
              | JArr (JStr path :: _) => set_add path keys
              | _ => keys
              end)) /\
  (forall path,
      value = JStr path \/ (exists rest, value = JArr (JStr path :: rest)) ->
      exists result, getRequiredKeys rule = Normal result /\ In path result).
Proof.
  intros Hnode Hvar. split.
  - intros keys. rewrite record_var_spec. unfold var_path. rewrite Hvar.
    destruct value as [ | | b | n | s | [|[ | | b | n | s | items | fs] rest] | fs];
      reflexivity.
  - intros path Hpath. apply getRequiredKeys_In.
    apply (recorded_node_of _ _ Hnode). apply var_path_recorded.
    unfold var_path. rewrite Hvar.
    destruct Hpath as [-> | [rest ->]]; now left.
Qed.

(** C3.  [canExecuteRule] returns true when [getRequiredKeys] is empty,
    whatever the data; in general it returns true exactly when every
    required path passes [hasKey], and false exactly when some path fails
    it, a failing path deciding the result whatever comes after it. *)
Theorem canExecuteRule_all_paths (rule data : Json) :
  exists keys,
    getRequiredKeys rule = Normal keys /\
    (keys = [] -> canExecuteRule rule data = Normal true) /\
    (canExecuteRule rule data = Normal true <->
     forall p, In p keys -> hasKey data p = Normal true) /\
    (canExecuteRule rule data = Normal false <->
     exists p, In p keys /\ hasKey data p = Normal false) /\
    (forall p rest,
        hasKey data p = Normal false ->
        canExecuteRule_loop data (p :: rest) = Normal false).
Proof.
  exists (dedup (recorded rule)). split; [apply getRequiredKeys_spec|].
  rewrite canExecuteRule_unfold.
  destruct (canExecuteRule_loop_spec data (dedup (recorded rule)))
    as (b & Hloop & Htrue & Hfalse).
  rewrite Hloop. repeat split.
  - intros Hnil. rewrite Hnil in Hloop. cbn in Hloop. now symmetry.
  - intros [= ->]. now apply Htrue.
  - intros H. f_equal. now apply Htrue.
  - intros [= ->]. now apply Hfalse.
  - intros H. f_equal. now apply Hfalse.
  - intros p rest Hp. cbn [canExecuteRule_loop]. rewrite Hp. reflexivity.
Qed.

(** Leaving the call stack aside, [getRequiredKeys] and [canExecuteRule]
    return a result for every rule and every data value: no operator is
    applied to an operand on which it throws. *)
Theorem analysis_and_validation_total (rule data : Json) :
  (exists keys, getRequiredKeys rule = Normal keys) /\
  (exists b, canExecuteRule rule data = Normal b).
Proof.
  split.
  - eexists. apply getRequiredKeys_spec.
  - rewrite canExecuteRule_unfold.
    destruct (canExecuteRule_loop_spec data (dedup (recorded rule))) as (b & Hloop & _).
    now exists b.
Qed.

Lemma node_of_trans (a b c : Json) :
  node_of a b -> node_of b c -> node_of a c.
Proof.
  intros Hab Hbc. induction Hbc as [|parent node _ IH Hchild].
  - exact Hab.
  - exact (node_child a parent node IH Hchild).
Qed.

Lemma append_length (a b : string) :
  String.length (a ++ b)%string = String.length a + String.length b.
Proof. induction a as [|c a IH]; simpl; [reflexivity | now rewrite IH]. Qed.

(** C4, on the input where the code departs from it.  The specification
    lets a segment pass only when the current object owns a property of
    that name, so that an absent key makes the check return false.  [hasKey]
    tests [key in current], which inherited properties satisfy as well:
    the empty object owns no [toString] and no path resolves through own
    properties, yet [hasKey], and [canExecuteRule] with it, return true. *)
Theorem hasKey_accepts_inherited_property :
  own_property (VJson (JObj [])) "toString" = None /\
  ~ resolves_own (VJson (JObj [])) (split_dot "toString") /\
  hasKey (JObj []) "toString" = Normal true /\
  canExecuteRule (JObj [("var", JStr "toString")]) (JObj []) = Normal true.
Proof.
  split; [reflexivity|]. split; [|split; reflexivity].
  intros H. inversion H; subst. discriminate.
Qed.

(** X5.  What [hasKey] does on every input.  It walks the segments of the path
    in order.  At a segment it returns false when the current value is
    null or undefined, is not an object, or has no property of that name,
    neither its own nor inherited through its prototype chain; otherwise
    it goes on with the property's value.  With all segments consumed it
    returns true.  So a key present with any value, null and undefined
    included, counts as present, and a key that neither the object nor its
    prototype chain has makes the check return false. *)
Theorem hasKey_walks_segments (data : Json) (path : string) :
  (hasKey data path = Normal true <-> resolves (VJson data) (split_dot path)) /\
  (hasKey data path = Normal false <-> ~ resolves (VJson data) (split_dot path)) /\
  (forall current, hasKey_loop [] current = Normal true) /\
  (forall segment rest current,
      loose_eq_null current = true \/
      String.eqb (typeof current) "object" = false \/
      find_property current segment = None ->
      hasKey_loop (segment :: rest) current = Normal false) /\
  (forall segment rest current next,
      loose_eq_null current = false ->
      String.eqb (typeof current) "object" = true ->
      find_property current segment = Some next ->
      hasKey_loop (segment :: rest) current = hasKey_loop rest next) /\
  (forall fields key value,
      split_dot key = [key] ->
      lookup key fields = Some value ->
      hasKey (JObj fields) key = Normal true) /\
  (forall key,
      split_dot key = [key] ->
      find_property (VJson data) key = None ->
      hasKey data key = Normal false).
Proof.
  assert (Hfail : forall segment rest current,
             loose_eq_null current = true \/
             String.eqb (typeof current) "object" = false \/
             find_property current segment = None ->
             hasKey_loop (segment :: rest) current = Normal false).
  { intros segment rest current H. cbn [hasKey_loop].
    destruct (loose_eq_null current) eqn:Hnull; [reflexivity|].
    destruct (String.eqb (typeof current) "object") eqn:Htype; [|reflexivity].
    destruct H as [H | [H | H]]; try discriminate.
    destruct (object_operand_safe current segment Hnull Htype) as (Hin & _).
    rewrite Hin, H. reflexivity. }
  assert (Hstep : forall segment rest current next,
             loose_eq_null current = false ->
             String.eqb (typeof current) "object" = true ->
             find_property current segment = Some next ->
             hasKey_loop (segment :: rest) current = hasKey_loop rest next).
  { intros segment rest current next Hnull Htype Hfind. cbn [hasKey_loop].
    rewrite Hnull, Htype.
    destruct (object_operand_safe current segment Hnull Htype) as (Hin & Hget & _).
    rewrite Hin, Hget, Hfind. reflexivity. }
  unfold hasKey.
  destruct (hasKey_loop_decides (split_dot path) (VJson data)) as [[Hr Hk] | [Hr Hk]];
    rewrite Hk; (split; [|split; [|split; [|split; [|split; [|split]]]]]);
    try exact Hfail; try exact Hstep; try reflexivity.
  - tauto.
  - split; [discriminate | tauto].
  - intros fields key value -> Hvalue.
    rewrite (Hstep key [] (VJson (JObj fields)) (VJson value)); try reflexivity.
    unfold find_property. cbn [first_owner own_property]. rewrite Hvalue. reflexivity.
  - intros key -> Hnone. apply Hfail. auto.
  - split; [discriminate | tauto].
  - tauto.
  - intros fields key value -> Hvalue.
    rewrite (Hstep key [] (VJson (JObj fields)) (VJson value)); try reflexivity.
    unfold find_property. cbn [first_owner own_property]. rewrite Hvalue. reflexivity.
  - intros key -> Hnone. apply Hfail. auto.
Qed.

(** The null-versus-absent distinction on the inputs of the test suite:
    [{value: null}] has the key, [{}] has not. *)
Example hasKey_null_versus_absent :
  hasKey (JObj [("value", JNull)]) "value" = Normal true /\
  hasKey (JObj []) "value" = Normal false.
Proof.
  split.
  - apply (hasKey_walks_segments JNull "") with (value := JNull); reflexivity.
  - apply (hasKey_walks_segments (JObj []) ""); reflexivity.
Defined.

(** The hypotheses of C2 hold of the var node of [age_rule], whose path
    is therefore in the result. *)
Lemma var_property_recorded_witness :
  node_of age_rule (JObj [("var", JStr "age")]) /\
  lookup "var" [("var", JStr "age")] = Some (JStr "age") /\
  exists result, getRequiredKeys age_rule = Normal result /\ In "age" result.
Proof.
  assert (Hnode : node_of age_rule (JObj [("var", JStr "age")])).
  { apply node_child with (parent := JArr [JObj [("var", JStr "age")]; JNum 18]).
    - apply node_child with (parent := age_rule); [apply node_root|].
      apply child_value with (key := ">"). left. reflexivity.
    - apply child_item. left. reflexivity. }
  split; [exact Hnode|]. split; [reflexivity|].
  apply (var_property_recorded age_rule [("var", JStr "age")] (JStr "age") Hnode eq_refl).
  left. reflexivity.
Defined.

(** C6.  When a node [{"var": [path, default, ...]}] of a rule has a
    default value containing a var node [{"var": q}], [q] is in the result
    of [getRequiredKeys]: the descent into every property value reaches
    the array under [var] and, through it, the default value. *)
Theorem nested_var_in_default_collected
    (rule : Json) (fields : list (string * Json)) (path dflt : Json) (rest : list Json)
    (qfields : list (string * Json)) (q : string) :
  node_of rule (JObj fields) ->
  lookup "var" fields = Some (JArr (path :: dflt :: rest)) ->
  node_of dflt (JObj qfields) ->
  lookup "var" qfields = Some (JStr q) ->
  exists result, getRequiredKeys rule = Normal result /\ In q result.
Proof.
  intros Hnode Hvar Hnested Hq. apply getRequiredKeys_In.
  assert (Hdflt : node_of rule dflt).
  { apply node_child with (parent := JArr (path :: dflt :: rest)).
    - apply node_child with (parent := JObj fields); [exact Hnode|].
      apply child_value with (key := "var"). now apply lookup_In.
    - apply child_item. right. now left. }
  apply (recorded_node_of _ _ (node_of_trans _ _ _ Hdflt Hnested)).
  apply var_path_recorded. unfold var_path. rewrite Hq. now left.
Qed.

Lemma nested_var_in_default_collected_witness :
  exists result, getRequiredKeys default_rule = Normal result /\ In "b" result.
Proof.
  apply (nested_var_in_default_collected default_rule
           [("var", JArr [JStr "a"; JObj [("var", JStr "b")]])]
           (JStr "a") (JObj [("var", JStr "b")]) [] [("var", JStr "b")] "b").
  - apply node_root.
  - reflexivity.
  - apply node_root.
  - reflexivity.
Defined.

(** C7, as the specification words it: the default value of a
    var-with-default node contributes nothing.  On [default_rule] the
    default is a var node, and its path is in the result. *)
Lemma default_value_scanned :
  getRequiredKeys default_rule = Normal ["a"; "b"] /\
  getRequiredKeys default_rule <> Normal ["a"].
Proof. split; [reflexivity | discriminate]. Qed.

(** C7, amended.  For every node [{"var": [path, ...]}] of a rule whose
    first element is a string, the var test records that first element and
    nothing else, whatever follows it in the array; the elements after the
    first are then traversed by the descent into every property value, so
    the paths recorded in them are in the result too. *)
Theorem default_value_traversed
    (rule : Json) (fields : list (string * Json)) (path : string) (rest : list Json) :
  node_of rule (JObj fields) ->
  lookup "var" fields = Some (JArr (JStr path :: rest)) ->
  (forall keys, record_var (VJson (JObj fields)) keys = Normal (set_add path keys)) /\
  exists result,
    getRequiredKeys rule = Normal result /\
    In path result /\
    forall dflt q, In dflt rest -> In q (recorded dflt) -> In q result.
Proof.
  intros Hnode Hvar. split.
  - intros keys. rewrite record_var_spec. unfold var_path. now rewrite Hvar.
  - exists (dedup (recorded rule)). split; [apply getRequiredKeys_spec|]. split.
    + apply dedup_In, (recorded_node_of _ _ Hnode), var_path_recorded.
      unfold var_path. rewrite Hvar. now left.
    + intros dflt q Hdflt Hq. apply dedup_In.
      assert (Hd : node_of rule dflt).
      { apply node_child with (parent := JArr (JStr path :: rest)).
        - apply node_child with (parent := JObj fields); [exact Hnode|].
          apply child_value with (key := "var"). now apply lookup_In.
        - apply child_item. now right. }
      now apply (recorded_node_of _ _ Hd).
Qed.

Lemma default_value_traversed_witness :
  record_var (VJson default_rule) set_new = Normal ["a"] /\
  exists result,
    getRequiredKeys default_rule = Normal result /\ In "a" result /\ In "b" result.
Proof.
  destruct (default_value_traversed default_rule
              [("var", JArr [JStr "a"; JObj [("var", JStr "b")]])]
              "a" [JObj [("var", JStr "b")]] (node_root _) eq_refl)
    as [Hvar (result & Hresult & Ha & Hrest)].
  split; [apply Hvar|].
  exists result. split; [exact Hresult|]. split; [exact Ha|].
  apply (Hrest (JObj [("var", JStr "b")]) "b"); left; reflexivity.
Defined.

(** C8.  Whenever the engine throws, [evaluateRule] throws an [Error]
    whose message is the fixed prefix followed by the message of the
    engine's failure, or by [Unknown error] when the failure has none (it
    is not an [Error]); what the engine threw is not what the caller
    receives. *)
Theorem evaluateRule_normalizes_failure
    (jsonLogic_apply : Json -> Json -> Outcome) (rule data : Json) (failure : Thrown) :
  jsonLogic_apply rule (nullish_coalesce data (JObj [])) = Raised failure ->
  exists message,
    evaluateRule jsonLogic_apply rule data = Raised (ErrorInstance message) /\
    message = ("Failed to evaluate rule: " ++
               match failure_message failure with
               | Some original => original
               | None => "Unknown error"
               end)%string /\
    evaluateRule jsonLogic_apply rule data <> Raised failure.
Proof.
  intros Happly. unfold evaluateRule. rewrite Happly.
  destruct failure as [original | v]; cbn [failure_message].
  - eexists. split; [reflexivity|]. split; [reflexivity|].
    intros H. assert (Hlen : forall a b, Raised (ErrorInstance a) = Raised (ErrorInstance b) ->
                                 String.length a = String.length b)
      by (intros a b [= ->]; reflexivity).
    apply Hlen in H. rewrite append_length in H. cbn in H. lia.
  - eexists. split; [reflexivity|]. split; [reflexivity|]. discriminate.
Qed.

Lemma evaluateRule_normalizes_failure_witness :
  evaluateRule rejecting_engine age_rule alice =
  Raised (ErrorInstance "Failed to evaluate rule: Unrecognized operation foo").
Proof.
  destruct (evaluateRule_normalizes_failure rejecting_engine age_rule alice
              (ErrorInstance "Unrecognized operation foo") eq_refl)
    as (message & Hraised & Hmessage & _).
  rewrite Hraised, Hmessage. reflexivity.
Defined.

(** C9.  An object node of a rule that has a property [var] among other
    properties passes the var test exactly as the node with that [var]
    property alone does, and the values of all its properties are
    traversed: the keys required by any of them are required by the
    rule. *)
Theorem var_among_other_properties
    (rule : Json) (fields : list (string * Json)) (value : Json) :
  node_of rule (JObj fields) ->
  lookup "var" fields = Some value ->
  (forall keys,
      record_var (VJson (JObj fields)) keys =
      record_var (VJson (JObj [("var", value)])) keys) /\
  exists result,
    getRequiredKeys rule = Normal result /\
    (forall p, In p (var_path [("var", value)]) -> In p result) /\
    (forall key other, In (key, other) fields ->
       exists nested,
         getRequiredKeys other = Normal nested /\
         forall q, In q nested -> In q result).
Proof.
  intros Hnode Hvar.
  assert (Hpath : var_path fields = var_path [("var", value)]).
  { unfold var_path. rewrite Hvar. reflexivity. }
  split.
  - intros keys. rewrite !record_var_spec. now rewrite Hpath.
  - exists (dedup (recorded rule)). split; [apply getRequiredKeys_spec|]. split.
    + intros p Hp. apply dedup_In, (recorded_node_of _ _ Hnode), var_path_recorded.
      now rewrite Hpath.
    + intros key other Hin. exists (dedup (recorded other)).
      split; [apply getRequiredKeys_spec|].
      intros q Hq. apply dedup_In. apply (proj1 (dedup_In _ _)) in Hq.
      apply (recorded_node_of rule other); [|exact Hq].
      apply node_child with (parent := JObj fields); [exact Hnode|].
      now apply child_value with (key := key).
Qed.

Lemma var_among_other_properties_witness :
  getRequiredKeys mixed_node = Normal ["a"; "b"] /\
  exists result,
    getRequiredKeys mixed_node = Normal result /\ In "a" result /\ In "b" result.
Proof.
  split; [reflexivity|].
  destruct (var_among_other_properties mixed_node
              [("var", JStr "a"); ("else", JObj [("var", JStr "b")])]
              (JStr "a") (node_root _) eq_refl)
    as [_ (result & Hresult & Hvar & Hothers)].
  exists result. split; [exact Hresult|]. split.
  - apply Hvar. left. reflexivity.
  - destruct (Hothers "else" (JObj [("var", JStr "b")])) as (nested & Hnested & Hincl).
    + right. left. reflexivity.
    + apply Hincl. injection Hnested as <-. left. reflexivity.
Defined.

(** C10.  For the rule [{"var": ""}], [getRequiredKeys] returns the one
    path [""], and [canExecuteRule] returns false on every data value that
    does not own a property named by the empty string. *)
Theorem whole_context_var_needs_empty_key (data : Json) :
  own_property (VJson data) "" = None ->
  getRequiredKeys whole_context_rule = Normal [""] /\
  canExecuteRule whole_context_rule data = Normal false.
Proof.
  intros Hown. split; [reflexivity|].
  rewrite canExecuteRule_unfold. cbn [whole_context_rule recorded var_path lookup
    String.eqb Ascii.eqb Bool.eqb flat_map snd app dedup canExecuteRule_loop].
  assert (Hkey : hasKey data "" = Normal false).
  { destruct data as [ | | b | n | s | items | fields]; try reflexivity;
      unfold hasKey;
      cbn [split_dot hasKey_loop loose_eq_null typeof String.eqb Ascii.eqb
           Bool.eqb negb has_property is_object];
      unfold find_property; cbn [first_owner prototype_chain];
      rewrite Hown; reflexivity. }
  rewrite Hkey. reflexivity.
Qed.

Lemma whole_context_var_needs_empty_key_witness :
  own_property (VJson alice) "" = None /\
  getRequiredKeys whole_context_rule = Normal [""] /\
  canExecuteRule whole_context_rule alice = Normal false.
Proof.
  split; [reflexivity|].
  apply (whole_context_var_needs_empty_key alice). reflexivity.
Defined.

(** * Further properties of the code *)

(** ** Keys and the structure of a rule *)

Lemma child_node_of (parent node sub : Json) :
  child node parent -> node_of node sub -> node_of parent sub.
Proof.
  intros Hchild Hsub.
  exact (node_of_trans _ _ _ (node_child parent parent node (node_root parent) Hchild) Hsub).
Qed.

Lemma var_path_In (fields : list (string * Json)) (p : string) :
  In p (var_path fields) <->
  lookup "var" fields = Some (JStr p) \/
  exists rest, lookup "var" fields = Some (JArr (JStr p :: rest)).
Proof.
  unfold var_path.
  destruct (lookup "var" fields)
    as [[ | | b | n | s | [|[ | | b | n | s | items | fs] rest] | fs]|]; simpl;
    split;
    try (intros [H | []]; subst; eauto; fail);
    try (intros []; fail);
    try (intros [H | [r H]]; try discriminate; injection H as ->; auto; fail).
Qed.

(** A recorded path is the path of some object node of the rule. *)
Lemma recorded_sound (rule : Json) (p : string) :
  In p (recorded rule) ->
  exists fields, node_of rule (JObj fields) /\ In p (var_path fields).
Proof.
  induction rule as [ | | b | n | s | items IH | fields IH] using Json_ind;
    cbn [recorded]; try (intros []; fail).
  - intros Hp. apply in_flat_map in Hp. destruct Hp as (item & Hitem & Hp).
    rewrite Forall_forall in IH.
    destruct (IH item Hitem Hp) as (fs & Hnode & Hfs).
    exists fs. split; [|exact Hfs].
    apply (child_node_of _ item); [now apply child_item | exact Hnode].
  - intros Hp. apply in_app_or in Hp. destruct Hp as [Hp | Hp].
    + exists fields. split; [apply node_root | exact Hp].
    + apply in_flat_map in Hp. destruct Hp as ([key value] & Hkv & Hp).
      rewrite Forall_forall in IH.
      destruct (IH (key, value) Hkv Hp) as (fs & Hnode & Hfs).
      exists fs. split; [|exact Hfs].
      apply (child_node_of _ value); [now apply child_value with (key := key) | exact Hnode].
Qed.

(** X1.  A path is in the result of [getRequiredKeys] exactly when some
    object node of the rule has it as the string under [var], or as the
    string first element of the array under [var]: nothing else is ever
    returned. *)
Theorem required_keys_are_var_paths (rule : Json) (p : string) :
  (exists result, getRequiredKeys rule = Normal result /\ In p result) <->
  (exists fields,
      node_of rule (JObj fields) /\
      (lookup "var" fields = Some (JStr p) \/
       exists rest, lookup "var" fields = Some (JArr (JStr p :: rest)))).
Proof.
  split.
  - intros (result & Hresult & Hp).
    rewrite getRequiredKeys_spec in Hresult. injection Hresult as <-.
    apply (proj1 (dedup_In _ _)) in Hp.
    destruct (recorded_sound rule p Hp) as (fields & Hnode & Hpath).
    exists fields. split; [exact Hnode | now apply var_path_In].
  - intros (fields & Hnode & Hvar). apply getRequiredKeys_In.
    apply (recorded_node_of _ _ Hnode), var_path_recorded.
    now apply var_path_In.
Qed.

Lemma dedup_as_add_all (l : list string) : dedup l = add_all l [].
Proof.
  rewrite add_all_dedup. cbn [app]. symmetry. apply filter_true.
Qed.

Lemma dedup_NoDup_id (l : list string) : NoDup l -> dedup l = l.
Proof.
  induction 1 as [|x rest Hx _ IH]; simpl; [reflexivity|].
  rewrite IH. f_equal.
  rewrite <- (filter_true rest) at 2. apply filter_ext_in.
  intros a Ha. apply negb_true_iff, String.eqb_neq. intros ->. contradiction.
Qed.

Lemma dedup_idem (l : list string) : dedup (dedup l) = dedup l.
Proof. apply dedup_NoDup_id, dedup_NoDup. Qed.

Lemma dedup_app (a b : list string) :
  dedup (a ++ b) = dedup a ++ filter (fun p => negb (mem p (dedup a))) (dedup b).
Proof.
  rewrite dedup_as_add_all, add_all_app, <- dedup_as_add_all. apply add_all_dedup.
Qed.

(** Deduplicating the parts first changes nothing. *)
Lemma dedup_app_parts (a b : list string) :
  dedup (dedup a ++ dedup b) = dedup (a ++ b).
Proof. now rewrite !dedup_app, !dedup_idem. Qed.

Lemma required_spec (rule : Json) : required rule = dedup (recorded rule).
Proof. unfold required. now rewrite getRequiredKeys_spec. Qed.

Lemma dedup_flat_map_required (items : list Json) :
  dedup (flat_map required items) = dedup (flat_map recorded items).
Proof.
  induction items as [|item rest IH]; [reflexivity|].
  cbn [flat_map]. rewrite required_spec.
  rewrite <- dedup_app_parts, dedup_idem, IH. apply dedup_app_parts.
Qed.

(** X2.  The name of an operator plays no part: for every key other than
    [var], the node [{op: argument}] requires the keys of its argument,
    and can be executed on the data on which the argument can. *)
Theorem operator_name_is_transparent (op : string) (argument data : Json) :
  op <> "var" ->
  getRequiredKeys (JObj [(op, argument)]) = getRequiredKeys argument /\
  canExecuteRule (JObj [(op, argument)]) data = canExecuteRule argument data.
Proof.
  intros Hop.
  assert (Hrec : recorded (JObj [(op, argument)]) = recorded argument).
  { cbn [recorded flat_map snd]. unfold var_path. cbn [lookup].
    apply String.eqb_neq in Hop. rewrite Hop. cbn [app]. apply app_nil_r. }
  split.
  - now rewrite !getRequiredKeys_spec, Hrec.
  - now rewrite !canExecuteRule_unfold, Hrec.
Qed.

Lemma operator_name_is_transparent_witness :
  ">" <> "var" /\
  getRequiredKeys age_rule = Normal ["age"] /\
  canExecuteRule age_rule alice = Normal false.
Proof.
  split; [discriminate|].
  destruct (operator_name_is_transparent ">"
              (JArr [JObj [("var", JStr "age")]; JNum 18]) alice) as [Hkeys Hcan].
  - discriminate.
  - unfold age_rule. rewrite Hkeys, Hcan. split; reflexivity.
Defined.

(** X3.  The keys of an array of rules are the keys of its elements, put
    one after the other in the order of the elements and deduplicated by
    first occurrence. *)
Theorem array_keys_compose (items : list Json) :
  getRequiredKeys (JArr items) = Normal (dedup (flat_map required items)).
Proof.
  rewrite getRequiredKeys_spec, dedup_flat_map_required. reflexivity.
Qed.

(** X4.  [traverse] only appends to the key set it is given: the keys
    present stay where they are, the keys added are the recorded paths of
    the node that were not present, and a set without repetition stays
    without repetition. *)
Theorem traverse_extends_key_set (node : Json) (keys : StringSet) :
  exists added,
    traverse node keys = Normal (keys ++ added) /\
    (forall p, In p added <-> In p (recorded node) /\ ~ In p keys) /\
    (NoDup keys -> NoDup (keys ++ added)).
Proof.
  exists (filter (fun p => negb (mem p keys)) (dedup (recorded node))).
  split; [rewrite traverse_spec; f_equal; apply add_all_dedup|]. split.
  - intros p. rewrite filter_In, dedup_In, negb_true_iff, mem_false. tauto.
  - intros Hkeys. apply NoDup_app; [exact Hkeys | apply NoDup_filter, dedup_NoDup |].
    intros p Hp Hadded. apply filter_In in Hadded. destruct Hadded as [_ Hp'].
    apply negb_true_iff, mem_false in Hp'. contradiction.
Qed.

(** ** Paths and data *)

Lemma split_dot_nonempty (s : string) : split_dot s <> [].
Proof.
  destruct s as [|c rest]; cbn [split_dot]; [discriminate|].
  destruct (Ascii.eqb c "."); [discriminate|].
  destruct (split_dot rest); discriminate.
Qed.

Lemma split_dot_app (a b : string) :
  split_dot (a ++ "." ++ b)%string = split_dot a ++ split_dot b.
Proof.
  induction a as [|c a IH]; [reflexivity|].
  cbn [String.append split_dot]. cbn [String.append] in IH. rewrite IH.
  destruct (Ascii.eqb c "."); [reflexivity|].
  destruct (split_dot a) as [|seg segs] eqn:Ha; [|reflexivity].
  now destruct (split_dot_nonempty a).
Qed.

Lemma resolves_app (segments rest : list string) :
  forall v, resolves v (segments ++ rest) -> resolves v segments.
Proof.
  induction segments as [|segment segments IH]; intros v H; [constructor|].
  inversion H; subst. econstructor; eauto.
Qed.

Lemma hasKey_resolves (data : Json) (path : string) :
  hasKey data path = Normal true <-> resolves (VJson data) (split_dot path).
Proof.
  unfold hasKey.
  destruct (hasKey_loop_decides (split_dot path) (VJson data)) as [[Hr Hk] | [Hr Hk]];
    rewrite Hk; split; try tauto; discriminate.
Qed.

(** X7.  When a path exists in the data, so does every path obtained by
    cutting it at a dot. *)
Theorem hasKey_prefix_closed (data : Json) (path rest : string) :
  hasKey data (path ++ "." ++ rest)%string = Normal true ->
  hasKey data path = Normal true.
Proof.
  rewrite !hasKey_resolves, split_dot_app. apply resolves_app.
Qed.

Lemma hasKey_prefix_closed_witness :
  hasKey named_user "user.name" = Normal true /\
  hasKey named_user "user" = Normal true.
Proof.
  split; [reflexivity|].
  apply (hasKey_prefix_closed named_user "user" "name"). reflexivity.
Defined.

(** X8.  A key whose value is null, undefined or a primitive exists, but
    no path below it does. *)
Theorem primitive_value_ends_path
    (fields : list (string * Json)) (key rest : string) (value : Json) :
  split_dot key = [key] ->
  lookup key fields = Some value ->
  is_object (VJson value) = false ->
  hasKey (JObj fields) key = Normal true /\
  hasKey (JObj fields) (key ++ "." ++ rest)%string = Normal false.
Proof.
  intros Hkey Hvalue Hprim.
  assert (Hfind : find_property (VJson (JObj fields)) key = Some (VJson value)).
  { unfold find_property. cbn [first_owner own_property]. now rewrite Hvalue. }
  split.
  - apply hasKey_resolves. rewrite Hkey.
    econstructor; [reflexivity | exact Hfind | constructor].
  - destruct (hasKey_total (JObj fields) (key ++ "." ++ rest)%string) as [H | H];
      [|exact H].
    exfalso. apply hasKey_resolves in H. rewrite split_dot_app, Hkey in H.
    cbn [app] in H. inversion H as [|v segment segs next _ Hnext Hrest]; subst.
    rewrite Hfind in Hnext. injection Hnext as <-.
    destruct (split_dot rest) as [|seg segs'] eqn:Hsplit;
      [now destruct (split_dot_nonempty rest)|].
    inversion Hrest; subst. congruence.
Qed.

Lemma primitive_value_ends_path_witness :
  hasKey null_user "user" = Normal true /\
  hasKey null_user "user.name" = Normal false.
Proof.
  apply (primitive_value_ends_path [("user", JNull)] "user" "name" JNull);
    reflexivity.
Defined.

Lemma dot_free_single (s : string) : dot_free s = true -> split_dot s = [s].
Proof.
  induction s as [|c rest IH]; [reflexivity|].
  cbn [dot_free split_dot]. intros H. apply andb_true_iff in H. destruct H as [Hc Hrest].
  apply negb_true_iff in Hc. rewrite Hc, (IH Hrest). reflexivity.
Qed.

Lemma split_dot_dot_free (s : string) :
  Forall (fun segment => dot_free segment = true) (split_dot s).
Proof.
  induction s as [|c rest IH]; cbn [split_dot]; [repeat constructor|].
  destruct (Ascii.eqb c ".") eqn:Hc; [constructor; [reflexivity | exact IH]|].
  destruct (split_dot rest) as [|seg segs]; [repeat constructor; cbn; now rewrite Hc|].
  inversion IH; subst. constructor; [|assumption].
  cbn [dot_free]. rewrite Hc. assumption.
Qed.

Lemma join_split_dot (s : string) : join_dots (split_dot s) = s.
Proof.
  unfold join_dots. induction s as [|c rest IH]; [reflexivity|].
  cbn [split_dot]. destruct (Ascii.eqb c ".") eqn:Hc.
  - apply Ascii.eqb_eq in Hc. subst c.
    destruct (split_dot rest) as [|seg segs] eqn:Hrest;
      [now destruct (split_dot_nonempty rest)|].
    rewrite <- IH. reflexivity.
  - destruct (split_dot rest) as [|seg segs] eqn:Hrest;
      [now destruct (split_dot_nonempty rest)|].
    rewrite <- IH. destruct segs; reflexivity.
Qed.

Lemma split_join_dots (segments : list string) :
  segments <> [] ->
  Forall (fun segment => dot_free segment = true) segments ->
  split_dot (join_dots segments) = segments.
Proof.
  unfold join_dots. induction segments as [|seg rest IH]; [congruence|].
  intros _ Hfree. inversion Hfree as [|? ? Hseg Hrest]; subst.
  destruct rest as [|seg' rest'].
  - cbn [String.concat]. now apply dot_free_single.
  - change (String.concat "." (seg :: seg' :: rest'))
      with (seg ++ "." ++ String.concat "." (seg' :: rest'))%string.
    rewrite split_dot_app, (dot_free_single seg Hseg), IH; [reflexivity | discriminate | exact Hrest].
Qed.

(** X10.  The segments [hasKey] walks are what splitting at the dots
    gives: at least one segment, none containing a dot, and joined by dots
    they give back the path.  Conversely a path written by joining
    dot-free names with dots is walked name by name. *)
Theorem path_segments_round_trip (path : string) (segments : list string) :
  (split_dot path <> [] /\
   Forall (fun segment => dot_free segment = true) (split_dot path) /\
   join_dots (split_dot path) = path) /\
  (segments <> [] ->
   Forall (fun segment => dot_free segment = true) segments ->
   split_dot (join_dots segments) = segments /\
   forall data, hasKey data (join_dots segments) = hasKey_loop segments (VJson data)).
Proof.
  split.
  - split; [apply split_dot_nonempty|]. split; [apply split_dot_dot_free|].
    apply join_split_dot.
  - intros Hne Hfree. split; [now apply split_join_dots|].
    intros data. unfold hasKey. now rewrite split_join_dots.
Qed.

Lemma path_segments_round_trip_witness :
  split_dot "user.name" = ["user"; "name"] /\
  hasKey named_user "user.name" = hasKey_loop ["user"; "name"] (VJson named_user).
Proof.
  destruct (path_segments_round_trip "" ["user"; "name"]) as [_ H].
  destruct H as [Hsplit Hwalk].
  - discriminate.
  - repeat constructor.
  - split; [exact Hsplit | exact (Hwalk named_user)].
Defined.

(** ** Own and inherited properties *)

Lemma mem_builtin (key : string) :
  mem key builtin_names = false ->
  String.eqb key "__proto__" = false /\
  mem key object_prototype_methods = false /\
  mem key array_prototype_methods = false.
Proof.
  unfold builtin_names, mem. cbn [existsb]. rewrite existsb_app.
  intros H. apply orb_false_iff in H. destruct H as [H1 H2].
  apply orb_false_iff in H2. tauto.
Qed.

(** On data, a name no built-in prototype answers to is found only as an
    own property, and what is found is data again. *)
Lemma find_property_plain (j : Json) (key : string) :
  mem key builtin_names = false ->
  find_property (VJson j) key = own_property (VJson j) key /\
  (forall next, own_property (VJson j) key = Some next -> exists j', next = VJson j').
Proof.
  intros H. destruct (mem_builtin key H) as (Hproto & Hobj & Harr). split.
  - unfold find_property.
    destruct j as [ | | b | n | s | items | fields];
      cbn [first_owner own_property prototype_chain];
      rewrite ?Hproto, ?Hobj, ?Harr; try reflexivity.
    + destruct (String.eqb key "length"); [reflexivity|].
      destruct (option_map VJson (element items 0 key)); reflexivity.
    + destruct (option_map VJson (lookup key fields)); reflexivity.
  - intros next. destruct j as [ | | b | n | s | items | fields];
      cbn [own_property]; try discriminate.
    + destruct (String.eqb key "length"); [intros [= <-]; eauto|].
      destruct (element items 0 key); cbn; [intros [= <-]; eauto | discriminate].
    + destruct (lookup key fields); cbn; [intros [= <-]; eauto | discriminate].
Qed.

Lemma resolves_plain (segments : list string) :
  Forall (fun segment => mem segment builtin_names = false) segments ->
  forall j, resolves (VJson j) segments <-> resolves_own (VJson j) segments.
Proof.
  induction 1 as [|segment rest Hsegment _ IH]; intros j.
  - split; intros _; constructor.
  - destruct (find_property_plain j segment Hsegment) as [Hfind Hdata].
    split; intros Hr; inversion Hr as [|v s r next Hobj Hnext Hrest]; subst.
    + rewrite Hfind in Hnext. destruct (Hdata next Hnext) as [j' ->].
      econstructor; [exact Hobj | exact Hnext | exact (proj1 (IH j') Hrest)].
    + destruct (Hdata next Hnext) as [j' ->].
      econstructor; [exact Hobj | rewrite Hfind; exact Hnext | exact (proj2 (IH j') Hrest)].
Qed.

(** X6.  On a path none of whose segments is a property name of the
    built-in prototypes, [hasKey] returns true exactly when every segment
    names a property the object reached so far owns, and false
    otherwise. *)
Theorem hasKey_own_properties_on_plain_paths (data : Json) (path : string) :
  Forall (fun segment => mem segment builtin_names = false) (split_dot path) ->
  (hasKey data path = Normal true <-> resolves_own (VJson data) (split_dot path)) /\
  (hasKey data path = Normal false <-> ~ resolves_own (VJson data) (split_dot path)).
Proof.
  intros Hplain. pose proof (resolves_plain _ Hplain data) as Hiff.
  pose proof (hasKey_resolves data path) as Htrue.
  split; [now rewrite Htrue|].
  destruct (hasKey_total data path) as [H | H]; rewrite H.
  - split; [discriminate|]. intros Hno. exfalso. apply Hno, Hiff, Htrue, H.
  - split; [|reflexivity]. intros _ Hown. apply Hiff, Htrue in Hown. congruence.
Qed.

Lemma hasKey_own_properties_on_plain_paths_witness :
  hasKey (JObj []) "value" = Normal false.
Proof.
  apply (hasKey_own_properties_on_plain_paths (JObj []) "value").
  - repeat constructor.
  - intros H. inversion H; subst. discriminate.
Defined.

(** ** Arrays as data *)

Lemma index_name_inj (i j : nat) : index_name i = index_name j -> i = j.
Proof.
  unfold index_name. intros H.
  apply (f_equal NilEmpty.uint_of_string) in H. rewrite !NilEmpty.usu in H.
  injection H as H. now apply DecimalNat.Unsigned.to_uint_inj.
Qed.

Lemma index_name_digits (i : nat) : all_digits (index_name i) = true.
Proof.
  unfold index_name. induction (Nat.to_uint i); cbn; auto.
Qed.

Lemma digits_not_listed (key : string) (names : list string) :
  forallb (fun name => negb (all_digits name)) names = true ->
  all_digits key = true ->
  mem key names = false.
Proof.
  intros Hnames Hkey. apply mem_false. intros Hin.
  rewrite forallb_forall in Hnames. specialize (Hnames key Hin).
  rewrite Hkey in Hnames. discriminate.
Qed.

Lemma all_digits_dot_free (s : string) : all_digits s = true -> dot_free s = true.
Proof.
  induction s as [|c rest IH]; [reflexivity|]. cbn [all_digits dot_free].
  intros H. apply andb_true_iff in H. destruct H as [Hc Hrest].
  rewrite (IH Hrest), andb_true_r. apply negb_true_iff.
  destruct (Ascii.eqb c ".") eqn:Hdot; [|reflexivity].
  apply Ascii.eqb_eq in Hdot. subst c. discriminate.
Qed.

Lemma element_nth_error (items : list Json) :
  forall first i, element items first (index_name (first + i)) = nth_error items i.
Proof.
  induction items as [|x rest IH]; intros first i; [now destruct i|].
  cbn [element]. destruct i as [|i].
  - rewrite Nat.add_0_r, String.eqb_refl. reflexivity.
  - destruct (String.eqb (index_name first) (index_name (first + S i))) eqn:Heq.
    + apply String.eqb_eq, index_name_inj in Heq. lia.
    + rewrite <- Nat.add_succ_comm. apply IH.
Qed.

(** X9.  On an array the path made of the decimal numeral of [i] exists
    exactly when [i] is below the length of the array. *)
Theorem hasKey_array_index (items : list Json) (i : nat) :
  hasKey (JArr items) (index_name i) = Normal (Nat.ltb i (List.length items)).
Proof.
  pose proof (index_name_digits i) as Hdigits.
  unfold hasKey. rewrite (dot_free_single _ (all_digits_dot_free _ Hdigits)).
  cbn [hasKey_loop loose_eq_null typeof String.eqb Ascii.eqb Bool.eqb negb
       has_property is_object].
  assert (Hfind : find_property (VJson (JArr items)) (index_name i) =
                  option_map VJson (nth_error items i)).
  { unfold find_property. cbn [first_owner own_property prototype_chain].
    assert (Hlength : String.eqb (index_name i) "length" = false).
    { apply String.eqb_neq. intros H. rewrite H in Hdigits. discriminate. }
    assert (Hproto : String.eqb (index_name i) "__proto__" = false).
    { apply String.eqb_neq. intros H. rewrite H in Hdigits. discriminate. }
    pose proof (element_nth_error items 0 i) as Helement. cbn [Nat.add] in Helement.
    rewrite Hlength, Hproto, Helement.
    rewrite (digits_not_listed _ array_prototype_methods eq_refl Hdigits).
    rewrite (digits_not_listed _ object_prototype_methods eq_refl Hdigits).
    destruct (nth_error items i); reflexivity. }
  rewrite Hfind. cbn [bind].
  destruct (nth_error items i) as [x|] eqn:Hnth; cbn [option_map negb].
  - assert (Hlt : i < List.length items) by (apply nth_error_Some; congruence).
    apply Nat.ltb_lt in Hlt. rewrite Hlt.
    unfold get. cbn [loose_eq_null is_object]. rewrite Hfind, ?Hnth. reflexivity.
  - apply nth_error_None in Hnth. apply Nat.ltb_ge in Hnth. now rewrite Hnth.
Qed.

(** ** Data that cannot hold keys, and single variables *)

Lemma hasKey_not_object (data : Json) (path : string) :
  is_object (VJson data) = false -> hasKey data path = Normal false.
Proof.
  intros Hdata. unfold hasKey.
  destruct (split_dot path) as [|segment rest] eqn:Hsplit;
    [now destruct (split_dot_nonempty path)|].
  destruct data; try discriminate; reflexivity.
Qed.

(** X11.  On data that is null, undefined or a primitive, [canExecuteRule]
    returns true exactly when the rule requires no key at all, and false
    otherwise. *)
Theorem keyless_data_needs_keyless_rule (rule data : Json) :
  is_object (VJson data) = false ->
  (canExecuteRule rule data = Normal true <-> getRequiredKeys rule = Normal []) /\
  (canExecuteRule rule data = Normal false <-> getRequiredKeys rule <> Normal []).
Proof.
  intros Hdata. rewrite canExecuteRule_unfold, getRequiredKeys_spec.
  destruct (dedup (recorded rule)) as [|key rest].
  - cbn. repeat split; try congruence; try discriminate.
  - cbn [canExecuteRule_loop]. rewrite (hasKey_not_object data key Hdata). cbn.
    repeat split; try congruence; try discriminate.
Qed.

Lemma keyless_data_needs_keyless_rule_witness :
  is_object (VJson JNull) = false /\
  canExecuteRule age_rule JNull = Normal false /\
  canExecuteRule (JObj [("==", JArr [JNum 1; JNum 1])]) JNull = Normal true.
Proof.
  split; [reflexivity|]. split.
  - apply (keyless_data_needs_keyless_rule age_rule JNull eq_refl). discriminate.
  - apply (keyless_data_needs_keyless_rule
             (JObj [("==", JArr [JNum 1; JNum 1])]) JNull eq_refl).
    reflexivity.
Defined.

Lemma canExecuteRule_loop_single (data : Json) (path : string) :
  canExecuteRule_loop data [path] = hasKey data path.
Proof.
  cbn [canExecuteRule_loop].
  destruct (hasKey_total data path) as [H | H]; rewrite H; reflexivity.
Qed.

(** X12.  A rule that is one var node can be executed exactly when its
    path exists in the data.  A default value does not lift the
    requirement: with a default that requires no key, the var node still
    needs its path. *)
Theorem single_var_needs_its_path (path : string) (dflt data : Json) :
  canExecuteRule (JObj [("var", JStr path)]) data = hasKey data path /\
  (getRequiredKeys dflt = Normal [] ->
   canExecuteRule (JObj [("var", JArr [JStr path; dflt])]) data = hasKey data path).
Proof.
  split.
  - rewrite canExecuteRule_unfold. apply canExecuteRule_loop_single.
  - intros Hdflt. rewrite canExecuteRule_unfold.
    rewrite getRequiredKeys_spec in Hdflt. injection Hdflt as Hdflt.
    cbn [recorded var_path lookup String.eqb Ascii.eqb Bool.eqb flat_map snd app].
    rewrite !app_nil_r.
    change (dedup (path :: recorded dflt))
      with (path :: filter (fun y => negb (String.eqb y path)) (dedup (recorded dflt))).
    rewrite Hdflt. cbn [filter].
    apply canExecuteRule_loop_single.
Qed.

Lemma single_var_needs_its_path_witness :
  canExecuteRule (JObj [("var", JArr [JStr "status"; JStr "inactive"])]) alice
  = Normal false.
Proof.
  destruct (single_var_needs_its_path "status" (JStr "inactive") alice) as [_ H].
  rewrite H; reflexivity.
Defined.

(** ** Executability along the structure of rule and data *)

Lemma canExecuteRule_recorded (rule data : Json) :
  canExecuteRule rule data = Normal true <->
  forall p, In p (recorded rule) -> hasKey data p = Normal true.
Proof.
  rewrite canExecuteRule_unfold.
  destruct (canExecuteRule_loop_spec data (dedup (recorded rule)))
    as (b & Hloop & Htrue & _).
  rewrite Hloop. split.
  - intros [= ->] p Hp. apply Htrue; [reflexivity | now apply dedup_In].
  - intros H. f_equal. apply Htrue. intros p Hp. apply H.
    exact (proj1 (dedup_In _ _) Hp).
Qed.

Lemma canExecuteRule_total (rule data : Json) :
  canExecuteRule rule data = Normal true \/ canExecuteRule rule data = Normal false.
Proof.
  rewrite canExecuteRule_unfold.
  destruct (canExecuteRule_loop_spec data (dedup (recorded rule))) as ([|] & Hloop & _);
    auto.
Qed.

(** X13.  An array of rules can be executed exactly when each of its
    elements can, and is rejected exactly when one of them is. *)
Theorem array_executable_elementwise (items : list Json) (data : Json) :
  (canExecuteRule (JArr items) data = Normal true <->
   forall item, In item items -> canExecuteRule item data = Normal true) /\
  (canExecuteRule (JArr items) data = Normal false <->
   exists item, In item items /\ canExecuteRule item data = Normal false).
Proof.
  assert (Htrue : canExecuteRule (JArr items) data = Normal true <->
                  forall item, In item items -> canExecuteRule item data = Normal true).
  { rewrite canExecuteRule_recorded. cbn [recorded]. split.
    - intros H item Hitem. apply canExecuteRule_recorded. intros p Hp.
      apply H, in_flat_map. now exists item.
    - intros H p Hp. apply in_flat_map in Hp. destruct Hp as (item & Hitem & Hp).
      exact (proj1 (canExecuteRule_recorded item data) (H item Hitem) p Hp). }
  split; [exact Htrue|]. split.
  - intros Hfalse. induction items as [|item rest IH].
    + discriminate.
    + destruct (canExecuteRule_total item data) as [Hitem | Hitem].
      * destruct (canExecuteRule_total (JArr rest) data) as [Hrest | Hrest].
        -- exfalso.
           assert (Hall : canExecuteRule (JArr (item :: rest)) data = Normal true).
           { apply canExecuteRule_recorded. cbn [recorded flat_map]. intros p Hp.
             apply in_app_or in Hp. destruct Hp as [Hp | Hp].
             - exact (proj1 (canExecuteRule_recorded item data) Hitem p Hp).
             - exact (proj1 (canExecuteRule_recorded (JArr rest) data) Hrest p Hp). }
           congruence.
        -- assert (Hiff : canExecuteRule (JArr rest) data = Normal true <->
                          forall x, In x rest -> canExecuteRule x data = Normal true).
           { rewrite canExecuteRule_recorded. cbn [recorded]. split.
             - intros H x Hx. apply canExecuteRule_recorded. intros p Hp.
               apply H, in_flat_map. now exists x.
             - intros H p Hp. apply in_flat_map in Hp. destruct Hp as (x & Hx & Hp).
               exact (proj1 (canExecuteRule_recorded x data) (H x Hx) p Hp). }
           destruct (IH Hiff Hrest) as (x & Hx & Hfail).
           exists x. split; [now right | exact Hfail].
      * exists item. split; [now left | exact Hitem].
  - intros (item & Hitem & Hfail).
    destruct (canExecuteRule_total (JArr items) data) as [H | H]; [|exact H].
    rewrite (proj1 Htrue H item Hitem) in Hfail. discriminate.
Qed.

(** X14.  A rule that can be executed on some data has only nodes that
    can be executed on that data: what a part requires, the whole
    requires. *)
Theorem executable_rule_has_executable_nodes (rule node data : Json) :
  node_of rule node ->
  canExecuteRule rule data = Normal true ->
  canExecuteRule node data = Normal true.
Proof.
  intros Hnode Hrule. apply canExecuteRule_recorded. intros p Hp.
  apply (proj1 (canExecuteRule_recorded rule data) Hrule).
  now apply (recorded_node_of rule node).
Qed.

Lemma executable_rule_has_executable_nodes_witness :
  canExecuteRule name_rule named_user = Normal true /\
  canExecuteRule (JObj [("var", JStr "user.name")]) named_user = Normal true.
Proof.
  split; [reflexivity|].
  apply (executable_rule_has_executable_nodes name_rule).
  - apply node_child
      with (parent := JArr [JObj [("var", JStr "user.name")]; JStr "Alice"]).
    + apply node_child with (parent := name_rule); [apply node_root|].
      apply child_value with (key := "=="). left. reflexivity.
    + apply child_item. left. reflexivity.
  - reflexivity.
Defined.

Lemma lookup_insert_other
    (key k : string) (v : Json) (before after : list (string * Json)) :
  key <> k ->
  lookup key (before ++ (k, v) :: after) = lookup key (before ++ after).
Proof.
  intros Hneq. induction before as [|[k' v'] before IH]; cbn [app lookup].
  - destruct (String.eqb k key) eqn:Heq; [|reflexivity].
    apply String.eqb_eq in Heq. congruence.
  - now rewrite IH.
Qed.

(** X15.  Data with one more key satisfies every rule it satisfied
    before: adding, anywhere among the properties of the data object, a
    key the object did not have (own or inherited) keeps [canExecuteRule]
    true. *)
Theorem extra_key_keeps_rule_executable
    (rule : Json) (before after : list (string * Json)) (k : string) (v : Json) :
  find_property (VJson (JObj (before ++ after))) k = None ->
  canExecuteRule rule (JObj (before ++ after)) = Normal true ->
  canExecuteRule rule (JObj (before ++ (k, v) :: after)) = Normal true.
Proof.
  intros Hnew Hrule. apply canExecuteRule_recorded. intros p Hp.
  pose proof (proj1 (canExecuteRule_recorded _ _) Hrule p Hp) as Hkey.
  apply hasKey_resolves. apply hasKey_resolves in Hkey.
  inversion Hkey as [v0 Hnil | v0 segment rest next Hobj Hnext Hrest Hsplit].
  - constructor.
  - assert (Hneq : segment <> k) by (intros ->; congruence).
    econstructor; [reflexivity | | exact Hrest].
    rewrite <- Hnext. unfold find_property.
    cbn [first_owner own_property prototype_chain proto_value].
    now rewrite (lookup_insert_other segment k v before after Hneq).
Qed.

Lemma extra_key_keeps_rule_executable_witness :
  canExecuteRule (JObj [("var", JStr "name")]) alice = Normal true /\
  canExecuteRule (JObj [("var", JStr "name")])
    (JObj [("name", JStr "Alice"); ("age", JNum 25)]) = Normal true.
Proof.
  split; [reflexivity|].
  apply (extra_key_keeps_rule_executable (JObj [("var", JStr "name")])
           [("name", JStr "Alice")] [] "age" (JNum 25)); reflexivity.
Defined.

(** ** The data handed to the engine *)

(** X16.  [evaluateRule] hands the engine an empty object when the data
    is undefined (omitted) or null, and the data itself in every other
    case, falsy values included; so no engine tells undefined, null and
    the empty object apart, and what the engine returns is returned
    unchanged. *)
Theorem evaluateRule_defaults_nullish_data
    (jsonLogic_apply : Json -> Json -> Outcome) (rule data : Json) :
  evaluateRule jsonLogic_apply rule JUndefined = evaluateRule jsonLogic_apply rule (JObj []) /\
  evaluateRule jsonLogic_apply rule JNull = evaluateRule jsonLogic_apply rule (JObj []) /\
  evaluateRule echo_engine rule data =
    Returned (if loose_eq_null (VJson data) then JObj [] else data) /\
  (forall v,
      evaluateRule jsonLogic_apply rule data = Returned v <->
      jsonLogic_apply rule (if loose_eq_null (VJson data) then JObj [] else data) = Returned v).
Proof.
  split; [reflexivity|]. split; [reflexivity|]. split.
  - destruct data; reflexivity.
  - intros v. unfold evaluateRule.
    replace (nullish_coalesce data (JObj []))
      with (if loose_eq_null (VJson data) then JObj [] else data)
      by (destruct data; reflexivity).
    destruct (jsonLogic_apply rule _) as [w | [message | w]];
      split; intros H; try discriminate; exact H.
Qed.

(** ** The call stack *)

(** With room for the depth of the node [traverse_on_stack] does what
    [traverse] does; with less it raises RangeError. *)
Lemma traverse_on_stack_spec (node : Json) :
  forall frames keys,
    traverse_on_stack frames node keys =
    if Nat.leb (depth node) frames
    then Normal (add_all (recorded node) keys)
    else Throw RangeError.
Proof.
  induction node as [ | | b | n | s | items IH | fields IH] using Json_ind;
    intros [|frames] keys; try reflexivity.
  - cbn [traverse_on_stack depth recorded Nat.leb]. revert keys.
    induction IH as [|item rest Hitem _ IHrest]; intros keys; [reflexivity|].
    cbn [map list_max fold_right flat_map]. rewrite Hitem, add_all_app.
    fold (list_max (map depth rest)).
    destruct (Nat.leb (depth item) frames) eqn:Hd; cbn [bind].
    + rewrite IHrest. apply Nat.leb_le in Hd.
      destruct (Nat.leb (list_max (map depth rest)) frames) eqn:Hm.
      * apply Nat.leb_le in Hm.
        assert (H : Nat.leb (Nat.max (depth item) (list_max (map depth rest))) frames = true)
          by (apply Nat.leb_le; lia).
        now rewrite H.
      * apply Nat.leb_gt in Hm.
        assert (H : Nat.leb (Nat.max (depth item) (list_max (map depth rest))) frames = false)
          by (apply Nat.leb_gt; lia).
        now rewrite H.
    + apply Nat.leb_gt in Hd.
      assert (H : Nat.leb (Nat.max (depth item) (list_max (map depth rest))) frames = false)
        by (apply Nat.leb_gt; lia).
      now rewrite H.
  - cbn [traverse_on_stack depth recorded Nat.leb].
    rewrite record_var_spec, add_all_app. cbn [bind].
    generalize (add_all (var_path fields) keys). clear keys.
    induction IH as [|[key value] rest Hvalue _ IHrest]; intros keys; [reflexivity|].
    cbn [map list_max fold_right flat_map snd]. cbn [snd] in Hvalue.
    rewrite Hvalue, add_all_app.
    fold (list_max (map (fun kv => depth (snd kv)) rest)).
    destruct (Nat.leb (depth value) frames) eqn:Hd; cbn [bind].
    + rewrite IHrest. apply Nat.leb_le in Hd.
      destruct (Nat.leb (list_max (map (fun kv => depth (snd kv)) rest)) frames) eqn:Hm.
      * apply Nat.leb_le in Hm.
        assert (H : Nat.leb (Nat.max (depth value)
                               (list_max (map (fun kv => depth (snd kv)) rest))) frames = true)
          by (apply Nat.leb_le; lia).
        now rewrite H.
      * apply Nat.leb_gt in Hm.
        assert (H : Nat.leb (Nat.max (depth value)
                               (list_max (map (fun kv => depth (snd kv)) rest))) frames = false)
          by (apply Nat.leb_gt; lia).
        now rewrite H.
    + apply Nat.leb_gt in Hd.
      assert (H : Nat.leb (Nat.max (depth value)
                             (list_max (map (fun kv => depth (snd kv)) rest))) frames = false)
        by (apply Nat.leb_gt; lia).
      now rewrite H.
Qed.

Lemma getRequiredKeys_on_stack_spec (frames : nat) (rule : Json) :
  getRequiredKeys_on_stack frames rule =
  if Nat.leb (depth rule) frames then getRequiredKeys rule else Throw RangeError.
Proof.
  unfold getRequiredKeys_on_stack, getRequiredKeys.
  rewrite traverse_on_stack_spec, traverse_spec.
  destruct (Nat.leb (depth rule) frames); reflexivity.
Qed.

Lemma canExecuteRule_on_stack_spec (frames : nat) (rule data : Json) :
  canExecuteRule_on_stack frames rule data =
  if Nat.leb (depth rule) frames then canExecuteRule rule data else Throw RangeError.
Proof.
  unfold canExecuteRule_on_stack, canExecuteRule.
  rewrite getRequiredKeys_on_stack_spec.
  destruct (Nat.leb (depth rule) frames); reflexivity.
Qed.

Lemma depth_nest (n : nat) (rule : Json) : depth (nest n rule) = n + depth rule.
Proof.
  induction n as [|n IH]; [reflexivity|].
  cbn [nest depth map list_max fold_right]. rewrite IH. lia.
Qed.

Lemma depth_positive (rule : Json) : 1 <= depth rule.
Proof. destruct rule; cbn [depth]; lia. Qed.

(** C5, as the specification words it: no rule makes the functions
    raise.  A rule nested deeper than the call stack has room for does:
    the recursion of [traverse] has no bound on its depth, so on a var
    node inside as many arrays as the stack holds activations (three
    here, any number in general) [getRequiredKeys] and [canExecuteRule]
    raise RangeError. *)
Lemma deep_rule_exhausts_stack :
  getRequiredKeys_on_stack 3 (nest 3 (JObj [("var", JStr "x")])) = Throw RangeError /\
  canExecuteRule_on_stack 3 (nest 3 (JObj [("var", JStr "x")])) JNull = Throw RangeError /\
  (forall frames data,
      getRequiredKeys_on_stack frames (nest frames (JObj [("var", JStr "x")]))
      = Throw RangeError /\
      canExecuteRule_on_stack frames (nest frames (JObj [("var", JStr "x")])) data
      = Throw RangeError).
Proof.
  split; [reflexivity|]. split; [reflexivity|].
  intros frames data.
  assert (Hdeep : Nat.leb (depth (nest frames (JObj [("var", JStr "x")]))) frames = false).
  { apply Nat.leb_gt. rewrite depth_nest. cbn [depth map list_max fold_right snd]. lia. }
  rewrite getRequiredKeys_on_stack_spec, canExecuteRule_on_stack_spec, Hdeep.
  split; reflexivity.
Qed.

(** C5, amended.  On every rule whose nesting depth the call stack has
    room for, and every data value (null, undefined and primitives
    included), [getRequiredKeys] and [canExecuteRule] return a result, the
    one the traversal determines, and raise nothing; on a rule nested
    deeper they raise RangeError, whatever the data. *)
Theorem analysis_and_validation_within_stack (frames : nat) (rule data : Json) :
  (depth rule <= frames ->
   getRequiredKeys_on_stack frames rule = getRequiredKeys rule /\
   canExecuteRule_on_stack frames rule data = canExecuteRule rule data /\
   (exists keys, getRequiredKeys_on_stack frames rule = Normal keys) /\
   (exists b, canExecuteRule_on_stack frames rule data = Normal b)) /\
  (frames < depth rule ->
   getRequiredKeys_on_stack frames rule = Throw RangeError /\
   canExecuteRule_on_stack frames rule data = Throw RangeError).
Proof.
  rewrite getRequiredKeys_on_stack_spec, canExecuteRule_on_stack_spec. split.
  - intros Hfits. apply Nat.leb_le in Hfits. rewrite Hfits.
    split; [reflexivity|]. split; [reflexivity|].
    apply analysis_and_validation_total.
  - intros Hdeep. apply Nat.leb_gt in Hdeep. rewrite Hdeep. split; reflexivity.
Qed.

Lemma analysis_and_validation_within_stack_witness :
  depth age_rule <= 4 /\
  getRequiredKeys_on_stack 4 age_rule = Normal ["age"] /\
  canExecuteRule_on_stack 4 age_rule alice = Normal false /\
  3 < depth age_rule /\
  getRequiredKeys_on_stack 3 age_rule = Throw RangeError.
Proof.
  destruct (analysis_and_validation_within_stack 4 age_rule alice) as [Hfits _].
  destruct (analysis_and_validation_within_stack 3 age_rule alice) as [_ Hdeep].
  destruct (Hfits (le_n 4)) as (Hkeys & Hcan & _).
  destruct (Hdeep (le_n 4)) as [Hthrow _].
  split; [exact (le_n 4)|]. split; [rewrite Hkeys; reflexivity|].
  split; [rewrite Hcan; reflexivity|]. split; [exact (le_n 4) | exact Hthrow].
Defined.
